(** * six-nations-scraping: the page component [src/app/page.tsx]

    [Page] reads [index.html] from the working directory, takes the inner
    contents of the first [<body...>...</body>] and [<style...>...</style>]
    regions with two regular expressions, and returns a fragment holding
    both as raw markup.

    The development has three layers:
    - JavaScript strings as lists of UTF-16 code units, and a backtracking
      matcher for the regular-expression constructs the two patterns use;
    - the file-system calls of [Page] in a small state/exception/trace monad;
    - the properties of the extraction and of the render operation. *)

From Stdlib Require Import List NArith Bool Ascii String Lia.
From Stdlib Require Strings.Byte.
Import ListNotations.

(* ================================================================== *)
(** ** JavaScript strings *)

Module JS.

(** A string value is a sequence of UTF-16 code units. *)
Definition code_unit := N.
Definition str := list code_unit.

(** Source literals are ASCII; [lit] gives their code units. *)
Definition lit (s : string) : str := map N_of_ascii (list_ascii_of_string s).
Arguments lit s%_string.

(** The values a fragment variable of [Page] can hold: an element of a match
    array is a string, or [undefined] for a group that took no part. *)
Inductive value :=
| undefined
| JString (s : str).

End JS.
Import JS.

(* ================================================================== *)
(** ** Regular expressions *)

Module RegExp.

(** [\s] is WhiteSpace or LineTerminator (ECMAScript CharacterClassEscape). *)
Definition is_space (c : code_unit) : bool :=
  ((9 <=? c) && (c <=? 13) || (c =? 32) || (c =? 160) || (c =? 5760)
   || (8192 <=? c) && (c <=? 8202) || (c =? 8232) || (c =? 8233)
   || (c =? 8239) || (c =? 8287) || (c =? 12288) || (c =? 65279))%N.

(** Members of a bracketed class. *)
Inductive class_atom :=
| CChar (c : code_unit)      (* a single character *)
| CSpace                     (* \s *)
| CNotSpace.                 (* \S *)

Definition atom_matches (a : class_atom) (c : code_unit) : bool :=
  match a with
  | CChar d => (c =? d)%N
  | CSpace => is_space c
  | CNotSpace => negb (is_space c)
  end.

(** [[...]] when [negated] is false, [[^...]] when it is true. *)
Record char_class := Class { negated : bool; atoms : list class_atom }.

Definition in_class (cl : char_class) (c : code_unit) : bool :=
  xorb (negated cl) (existsb (fun a => atom_matches a c) (atoms cl)).

(** The pattern constructs of the two expressions in [Page].  Quantifiers are
    applied to character classes only, as in the source. *)
Inductive regex :=
| Empty
| Chr (c : code_unit)                       (* pattern character *)
| Set_ (cl : char_class)                    (* [..] *)
| Star (greedy : bool) (cl : char_class)    (* [..]* and [..]*? *)
| Group (n : nat) (r : regex)               (* the n-th capturing ( ) *)
| Seq (r1 r2 : regex).

(** A run of pattern characters followed by [r]. *)
Fixpoint chars (l : str) (r : regex) : regex :=
  match l with
  | [] => r
  | c :: l' => Seq (Chr c) (chars l' r)
  end.

(** Capture slots, indexed from group 1. *)
Definition captures := list value.

Fixpoint set_capture (n : nat) (v : value) (x : captures) : captures :=
  match n, x with
  | _, [] => []
  | O, _ => x
  | S O, _ :: x' => v :: x'
  | S n', w :: x' => w :: set_capture n' v x'
  end.

Fixpoint ngroups (r : regex) : nat :=
  match r with
  | Group n r' => Nat.max n (ngroups r')
  | Seq r1 r2 => Nat.max (ngroups r1) (ngroups r2)
  | _ => 0
  end.

Section Matcher.
(** What a successful match yields. *)
Variable R : Type.

(** A continuation receives the unread input and the captures so far, and
    fails ([None]) to make the matcher backtrack. *)
Definition cont := str -> captures -> option R.

(** [cl*]: take as many as possible, give back one at a time. *)
Fixpoint star_greedy (cl : char_class) (s : str) (x : captures) (k : cont)
  : option R :=
  match s with
  | c :: s' =>
      if in_class cl c then
        match star_greedy cl s' x k with
        | Some res => Some res
        | None => k s x
        end
      else k s x
  | [] => k s x
  end.

(** [cl*?]: take none, and one more each time the rest fails. *)
Fixpoint star_lazy (cl : char_class) (s : str) (x : captures) (k : cont)
  : option R :=
  match k s x with
  | Some res => Some res
  | None =>
      match s with
      | c :: s' => if in_class cl c then star_lazy cl s' x k else None
      | [] => None
      end
  end.

Fixpoint rmatch (r : regex) (s : str) (x : captures) (k : cont) : option R :=
  match r with
  | Empty => k s x
  | Chr c =>
      match s with
      | d :: s' => if (d =? c)%N then k s' x else None
      | [] => None
      end
  | Set_ cl =>
      match s with
      | d :: s' => if in_class cl d then k s' x else None
      | [] => None
      end
  | Star true cl => star_greedy cl s x k
  | Star false cl => star_lazy cl s x k
  | Group n r' =>
      rmatch r' s x
        (fun s' x' =>
           k s' (set_capture n
                   (JString (firstn (List.length s - List.length s') s)) x'))
  | Seq r1 r2 => rmatch r1 s x (fun s' x' => rmatch r2 s' x' k)
  end.
End Matcher.
Arguments star_greedy {R} cl s x k.
Arguments star_lazy {R} cl s x k.
Arguments rmatch {R} r s x k.

(** The array [exec] returns: element 0 is the matched text, element [n] the
    n-th capture. *)
Definition match_array := list value.

(** One attempt at the start of [s]. *)
Definition match_here (r : regex) (s : str) : option match_array :=
  rmatch r s (repeat undefined (ngroups r))
    (fun s' x =>
       Some (JString (firstn (List.length s - List.length s') s) :: x)).

(** [RegExp.prototype.exec] without the global or sticky flag: the first
    start index, from 0 up to the length, at which the pattern matches. *)
Fixpoint exec (r : regex) (s : str) : option match_array :=
  match match_here r s with
  | Some a => Some a
  | None =>
      match s with
      | [] => None
      | _ :: s' => exec r s'
      end
  end.

(** [a[i]]; reading past the end of an array gives [undefined]. *)
Definition index (a : match_array) (i : nat) : value := nth i a undefined.

End RegExp.
Import RegExp.

(** [String.prototype.match] with a regular expression without flags. *)
Definition String_match (s : str) (r : regex) : option match_array := exec r s.

(* ================================================================== *)
(** ** The two patterns of [Page] *)

Definition gt : code_unit := 62%N.

(** [[^>]] *)
Definition not_gt : char_class := Class true [CChar gt].
(** [[\s\S]] *)
Definition any_char : char_class := Class false [CSpace; CNotSpace].

(** [/<body[^>]*>([\s\S]*?)<\/body>/] *)
Definition bodyRe : regex :=
  chars (lit "<body")
    (Seq (Star true not_gt)
       (Seq (Chr gt)
          (Seq (Group 1 (Star false any_char))
             (chars (lit "</body>") Empty)))).

(** [/<style[^>]*>([\s\S]*?)<\/style>/] *)
Definition styleRe : regex :=
  chars (lit "<style")
    (Seq (Star true not_gt)
       (Seq (Chr gt)
          (Seq (Group 1 (Star false any_char))
             (chars (lit "</style>") Empty)))).

(** [bodyMatch ? bodyMatch[1] : (empty string)] *)
Definition bodyContent (htmlContent : str) : value :=
  match String_match htmlContent bodyRe with
  | Some bodyMatch => index bodyMatch 1
  | None => JString []
  end.

(** [styleMatch ? styleMatch[1] : (empty string)] *)
Definition styleContent (htmlContent : str) : value :=
  match String_match htmlContent styleRe with
  | Some styleMatch => index styleMatch 1
  | None => JString []
  end.

(* ================================================================== *)
(** ** Substrings and regions: the extraction in the spec's words *)

Module Region.

(** [strip_prefix p s] is the rest of [s] after a leading [p]. *)
Fixpoint strip_prefix (p s : str) : option str :=
  match p, s with
  | [], _ => Some s
  | _ :: _, [] => None
  | c :: p', d :: s' => if (d =? c)%N then strip_prefix p' s' else None
  end.

(** The first occurrence of [p] in [s]: the text before it and after it. *)
Fixpoint find_sub (p s : str) : option (str * str) :=
  match strip_prefix p s with
  | Some after => Some ([], after)
  | None =>
      match s with
      | [] => None
      | c :: s' =>
          match find_sub p s' with
          | Some (before, after) => Some (c :: before, after)
          | None => None
          end
      end
  end.

(** [p] occurs somewhere in [s]. *)
Definition has_sub (p s : str) : bool :=
  match find_sub p s with Some _ => true | None => false end.

(** Some position of [s] starts an opening tag: [opening], then any text,
    then a [>]. *)
Fixpoint opens_in (opening s : str) : bool :=
  match strip_prefix opening s with
  | Some t => has_sub [gt] t
  | None => false
  end
  || match s with
     | [] => false
     | _ :: s' => opens_in opening s'
     end.

(** A region starting exactly at the head of [s]: the opening literal, the
    attribute text up to the first [>], the inner contents up to the first
    closing literal, and what follows it. *)
Definition region_here (opening closing s : str) : option (str * str * str) :=
  match strip_prefix opening s with
  | None => None
  | Some t =>
      match find_sub [gt] t with
      | None => None
      | Some (attrs, rest) =>
          match find_sub closing rest with
          | None => None
          | Some (inner, after) => Some (attrs, inner, after)
          end
      end
  end.

(** The first region of [s], scanning start positions left to right. *)
Fixpoint first_region (opening closing s : str) : option (str * str * str) :=
  match region_here opening closing s with
  | Some r => Some r
  | None =>
      match s with
      | [] => None
      | _ :: s' => first_region opening closing s'
      end
  end.

(** Spec: the extracted fragment is the inner contents of the first region,
    the empty string when there is none. *)
Definition fragment (opening closing s : str) : value :=
  match first_region opening closing s with
  | Some (_, inner, _) => JString inner
  | None => JString []
  end.

End Region.
Import Region.

(** Both patterns have the shape [opening [^>]* > ( [\s\S]*? ) closing]. *)
Definition tag_re (opening closing : str) : regex :=
  chars opening
    (Seq (Star true not_gt)
       (Seq (Chr gt)
          (Seq (Group 1 (Star false any_char))
             (chars closing Empty)))).

(* ================================================================== *)
(** ** The process environment and the render operation *)

Module Node.

Inductive errno := ENOENT | EACCES | EISDIR.

(** What a path names on disk. *)
Inductive node :=
| Missing
| Denied
| Directory
| RegularFile (content : list Byte.byte).

(** The state a render can observe or change: the working directory of the
    process, the file system, and whether the working directory has been
    removed since the process entered it. *)
Record world := World {
  cwd : str;
  disk : str -> node;
  cwd_removed : bool
}.

Inductive fs_call :=
| FsRead (path : str)
| FsWrite (path : str).

Inductive syscall := sys_uv_cwd | sys_open | sys_read.

(** A system error as Node reports it: the code, the failing call, and the
    path when the call was given one. *)
Record error := SystemError {
  code : errno;
  failed_call : syscall;
  error_path : option str
}.

Inductive outcome (A : Type) :=
| Returned (a : A)
| Thrown (e : error).
Arguments Returned {A} a.
Arguments Thrown {A} e.

(** A computation runs in a world and gives its outcome, the world it leaves
    and the file-system calls it made, in order. *)
Definition M (A : Type) := world -> outcome A * world * list fs_call.

Definition ret {A} (a : A) : M A := fun w => (Returned a, w, []).

(** Sequencing; an exception of the first part is not caught. *)
Definition bind {A B} (m : M A) (f : A -> M B) : M B :=
  fun w =>
    match m w with
    | (Returned a, w1, t1) =>
        match f a w1 with
        | (r, w2, t2) => (r, w2, t1 ++ t2)
        end
    | (Thrown e, w1, t1) => (Thrown e, w1, t1)
    end.

Definition result {A} (r : outcome A * world * list fs_call) : outcome A :=
  fst (fst r).
Definition final_world {A} (r : outcome A * world * list fs_call) : world :=
  snd (fst r).
Definition calls {A} (r : outcome A * world * list fs_call) : list fs_call :=
  snd r.

(** [process.cwd()]: throws when the working directory no longer exists. *)
Definition process_cwd : M str :=
  fun w =>
    if cwd_removed w
    then (Thrown (SystemError ENOENT sys_uv_cwd None), w, [])
    else (Returned (cwd w), w, []).

(** A JSX element with its [dangerouslySetInnerHTML.__html] property, or a
    fragment of elements. *)
#[warnings="-register-all"]
Inductive element :=
| Element (tag : string) (html : value)
| Fragment (children : list element).
Arguments Element tag%_string html.

Section Library.
(** Library functions [Page] relies on: [path.join] on two segments and the
    decoding of file bytes as UTF-8 text. *)
Variable path_join : str -> str -> str.
Variable utf8_decode : list Byte.byte -> str.

(** [fs.readFileSync(path, "utf-8")]: a missing or protected file fails in
    [open], which reports the path; a directory opens and fails in [read],
    which reports none. *)
Definition readFileSync (path : str) : M str :=
  fun w =>
    match disk w path with
    | RegularFile content => (Returned (utf8_decode content), w, [FsRead path])
    | Missing =>
        (Thrown (SystemError ENOENT sys_open (Some path)), w, [FsRead path])
    | Denied =>
        (Thrown (SystemError EACCES sys_open (Some path)), w, [FsRead path])
    | Directory =>
        (Thrown (SystemError EISDIR sys_read None), w, [FsRead path])
    end.

(** The path [Page] reads. *)
Definition htmlPath (w : world) : str := path_join (cwd w) (lit "index.html").

(** [export default function Page()] *)
Definition Page : M element :=
  bind process_cwd (fun dir =>
  let htmlPath := path_join dir (lit "index.html") in
  bind (readFileSync htmlPath) (fun htmlContent =>
  ret (Fragment [Element "style" (styleContent htmlContent);
                 Element "div" (bodyContent htmlContent)]))).
End Library.

End Node.
Import Node.

(** What [Page] returns on the text [t]. *)
Definition rendered (t : str) : element :=
  Fragment [Element "style" (styleContent t); Element "div" (bodyContent t)].

(** The double quote, for texts with quoted attribute values. *)
Definition dquote : code_unit := 34%N.

(** A working directory [/app] holding one file, for concrete runs. *)
Module Sample.
Definition join (a b : str) : str := a ++ lit "/" ++ b.
Definition decode (bytes : list Byte.byte) : str := map Byte.to_N bytes.
Definition file_at (path : str) (content : string) : str -> node :=
  fun p =>
    if list_eq_dec N.eq_dec p path
    then RegularFile (list_byte_of_string content)
    else Missing.
Definition app_with (content : string) : world :=
  World (lit "/app") (file_at (lit "/app/index.html") content) false.
Definition empty_app : world := World (lit "/app") (fun _ => Missing) false.
(** The process is still in [/app], which has been removed. *)
Definition removed_app : world := World (lit "/app") (fun _ => Missing) true.
(** Two documents: a style region in the head, and one inside the body. *)
Definition styled_page : string :=
  "<html><head><style>p{margin:0}</style></head><body class=x><p>Hi</p></body></html>".
Definition style_in_body : string :=
  "<html><body id=m><h1>T</h1><style>h1{}</style><p>x</p></body></html>".
(** The same directory with a second file beside [index.html]. *)
Definition app_with_other (content other : string) : world :=
  World (lit "/app")
    (fun p =>
       if list_eq_dec N.eq_dec p (lit "/app/notes.txt")
       then RegularFile (list_byte_of_string other)
       else file_at (lit "/app/index.html") content p)
    false.
End Sample.

(** The part of [s] before the first occurrence of [p]; all of [s] when [p]
    does not occur. *)
Definition up_to_first (p s : str) : str :=
  match find_sub p s with
  | Some (before, _) => before
  | None => s
  end.

(* ================================================================== *)
(** ** Facts about prefixes and occurrences *)

Lemma strip_prefix_app (p b : str) : strip_prefix p (p ++ b) = Some b.
Proof.
  induction p as [|c p IH]; simpl; [reflexivity|].
  now rewrite N.eqb_refl.
Qed.

Lemma strip_prefix_sound (p s t : str) :
  strip_prefix p s = Some t -> s = p ++ t.
Proof.
  revert s; induction p as [|c p IH]; intros [|d s]; simpl; intros H;
    try congruence.
  destruct (N.eqb_spec d c); [|discriminate].
  subst d; f_equal; auto.
Qed.

Lemma strip_prefix_extend (p a b t : str) :
  strip_prefix p a = Some t -> strip_prefix p (a ++ b) = Some (t ++ b).
Proof.
  intros H; apply strip_prefix_sound in H; subst a.
  rewrite <- app_assoc; apply strip_prefix_app.
Qed.

(** When the text [a] does not begin with [p] but [a ++ c :: rest] does, the
    character [c] is one of [p]. *)
Lemma strip_prefix_straddle (p a rest t : str) (c : code_unit) :
  strip_prefix p a = None ->
  strip_prefix p (a ++ c :: rest) = Some t ->
  In c p.
Proof.
  revert a; induction p as [|e p IH]; intros a Ha Hs; simpl in *.
  - destruct a; discriminate.
  - destruct a as [|f a]; simpl in *.
    + destruct (N.eqb_spec c e); [left; congruence|discriminate].
    + destruct (N.eqb_spec f e); [|discriminate].
      right; eapply IH; eauto.
Qed.

(** A literal whose first character does not recur cannot start inside [a]
    and end inside a following copy of itself. *)
Lemma strip_prefix_no_overlap (c : code_unit) (p a b : str) :
  ~ In c p ->
  a <> [] ->
  strip_prefix (c :: p) a = None ->
  strip_prefix (c :: p) (a ++ (c :: p) ++ b) = None.
Proof.
  intros Hc Ha Hn.
  destruct (strip_prefix (c :: p) (a ++ (c :: p) ++ b)) as [t|] eqn:E;
    [|reflexivity].
  destruct a as [|d a]; [congruence|].
  simpl in *.
  destruct (N.eqb_spec d c); [|discriminate].
  exfalso; apply Hc.
  eapply strip_prefix_straddle; eauto.
Qed.

Lemma find_sub_eq (p s : str) :
  find_sub p s =
  match strip_prefix p s with
  | Some after => Some ([], after)
  | None =>
      match s with
      | [] => None
      | c :: s' =>
          match find_sub p s' with
          | Some (before, after) => Some (c :: before, after)
          | None => None
          end
      end
  end.
Proof. destruct s; reflexivity. Qed.

Lemma find_sub_sound (p s a b : str) :
  find_sub p s = Some (a, b) -> s = a ++ p ++ b.
Proof.
  revert a b; induction s as [|c s IH]; intros a b; simpl.
  - destruct (strip_prefix p []) as [t|] eqn:E; [|discriminate].
    intros H; inversion H; subst. now apply strip_prefix_sound in E.
  - destruct (strip_prefix p (c :: s)) as [t|] eqn:E.
    + intros H; inversion H; subst. now apply strip_prefix_sound in E.
    + destruct (find_sub p s) as [[a' b']|]; [|discriminate].
      intros H; inversion H; subst. simpl; f_equal; auto.
Qed.

Lemma has_sub_cons (p s : str) (c : code_unit) :
  has_sub p (c :: s) = false ->
  strip_prefix p (c :: s) = None /\ has_sub p s = false.
Proof.
  unfold has_sub; simpl.
  destruct (strip_prefix p (c :: s)); [discriminate|].
  destruct (find_sub p s) as [[? ?]|]; [discriminate|auto].
Qed.

(** [has_sub] decides the occurrence of [p] as a substring. *)
Lemma has_sub_iff (p s : str) :
  has_sub p s = true <-> exists a b, s = a ++ p ++ b.
Proof.
  split.
  - unfold has_sub. destruct (find_sub p s) as [[a b]|] eqn:E; [|discriminate].
    intros _; exists a, b; now apply find_sub_sound.
  - intros (a & b & ->). unfold has_sub.
    induction a as [|c a IH]; simpl.
    + now rewrite find_sub_eq, strip_prefix_app.
    + destruct (strip_prefix p (c :: a ++ p ++ b)); [reflexivity|].
      destruct (find_sub p (a ++ p ++ b)) as [[? ?]|]; [reflexivity|].
      discriminate.
Qed.

(** The first occurrence of a literal without self-overlap, after a text
    that does not contain it, is where it stands. *)
Lemma find_sub_first (c : code_unit) (p a b : str) :
  ~ In c p ->
  has_sub (c :: p) a = false ->
  find_sub (c :: p) (a ++ (c :: p) ++ b) = Some (a, b).
Proof.
  intros Hc; induction a as [|d a IH]; intros Ha.
  - change ([] ++ (c :: p) ++ b) with ((c :: p) ++ b).
    now rewrite find_sub_eq, strip_prefix_app.
  - apply has_sub_cons in Ha as [Hn Ha].
    rewrite find_sub_eq.
    rewrite strip_prefix_no_overlap by (auto; discriminate).
    change ((d :: a) ++ (c :: p) ++ b) with (d :: (a ++ (c :: p) ++ b)).
    cbv beta iota. now rewrite IH.
Qed.

Lemma find_gt_first (a b : str) :
  has_sub [gt] a = false -> find_sub [gt] (a ++ gt :: b) = Some (a, b).
Proof.
  intros H. apply (find_sub_first gt [] a b); auto.
Qed.

Lemma has_sub_app_gt (a b : str) :
  has_sub [gt] a = false -> has_sub [gt] b = false ->
  has_sub [gt] (a ++ b) = false.
Proof.
  intros Ha Hb; induction a as [|c a IH]; [exact Hb|].
  apply has_sub_cons in Ha as [Hn Ha]. specialize (IH Ha).
  unfold has_sub in *; simpl in *.
  destruct (N.eqb_spec c gt); [discriminate|].
  destruct (find_sub [gt] (a ++ b)) as [[? ?]|]; [discriminate|reflexivity].
Qed.

(* ================================================================== *)
(** ** The matcher on the two patterns computes the first region *)

Section MatcherFacts.
Variable R : Type.
Implicit Types (k : cont R) (s : str) (x : captures).

Lemma ngroups_chars (l : str) (r : regex) : ngroups (chars l r) = ngroups r.
Proof. induction l; simpl; auto. Qed.

(** A run of pattern characters consumes exactly that prefix. *)
Lemma rmatch_chars (l : str) (r : regex) s x k :
  rmatch (chars l r) s x k =
  match strip_prefix l s with
  | Some t => rmatch r t x k
  | None => None
  end.
Proof.
  revert s; induction l as [|c l IH]; intros s; simpl; [reflexivity|].
  destruct s as [|d s]; [reflexivity|].
  destruct (d =? c)%N; auto.
Qed.

Lemma in_not_gt (c : code_unit) : in_class not_gt c = negb (c =? gt)%N.
Proof. unfold in_class; simpl. now rewrite orb_false_r. Qed.

Lemma in_any_char (c : code_unit) : in_class any_char c = true.
Proof. unfold in_class; simpl. now destruct (is_space c). Qed.

(** [[^>]*>] ends at the first [>]: giving characters back never helps,
    since each of them is not a [>]. *)
Lemma rmatch_attrs (r : regex) s x k :
  rmatch (Seq (Star true not_gt) (Seq (Chr gt) r)) s x k =
  match find_sub [gt] s with
  | Some (_, rest) => rmatch r rest x k
  | None => None
  end.
Proof.
  cbn [rmatch].
  induction s as [|c s IH]; [reflexivity|].
  rewrite find_sub_eq. cbn [star_greedy strip_prefix].
  rewrite in_not_gt.
  destruct (N.eqb_spec c gt) as [->|Hc]; cbn [negb].
  - reflexivity.
  - rewrite IH.
    destruct (find_sub [gt] s) as [[b a]|]; [|reflexivity].
    now destruct (rmatch r a x k).
Qed.

(** [[\s\S]*?] followed by a literal stops at the first occurrence of the
    literal, when what follows the literal always succeeds. *)
Lemma star_lazy_literal (closing : str) (f : nat -> captures -> captures)
      (g : nat -> captures -> R) s x :
  star_lazy any_char s x
    (fun s' x' =>
       rmatch (chars closing Empty) s' (f (List.length s') x')
         (fun s'' x'' => Some (g (List.length s'') x''))) =
  match find_sub closing s with
  | Some (_, after) =>
      Some (g (List.length after)
              (f (List.length closing + List.length after) x))
  | None => None
  end.
Proof.
  induction s as [|c s IH].
  - cbn [star_lazy]. rewrite rmatch_chars, find_sub_eq.
    destruct (strip_prefix closing []) as [t|] eqn:E; [|reflexivity].
    cbn [rmatch]. apply strip_prefix_sound in E.
    now rewrite E at 1; rewrite length_app.
  - cbn [star_lazy]. rewrite rmatch_chars, find_sub_eq.
    destruct (strip_prefix closing (c :: s)) as [t|] eqn:E.
    + cbn [rmatch]. apply strip_prefix_sound in E.
      now rewrite E at 1; rewrite length_app.
    + rewrite in_any_char, IH.
      now destruct (find_sub closing s) as [[b a]|].
Qed.
End MatcherFacts.

Lemma firstn_before (a b : str) :
  firstn (List.length (a ++ b) - List.length b) (a ++ b) = a.
Proof.
  rewrite length_app.
  replace (List.length a + List.length b - List.length b)
    with (List.length a + 0) by lia.
  now rewrite firstn_app_2, firstn_O, app_nil_r.
Qed.

(** One attempt of a tag pattern succeeds exactly on a region starting here,
    and captures its inner contents. *)
Lemma match_here_tag (opening closing s : str) :
  match_here (tag_re opening closing) s =
  match region_here opening closing s with
  | Some (attrs, inner, after) =>
      Some [JString (opening ++ attrs ++ [gt] ++ inner ++ closing);
            JString inner]
  | None => None
  end.
Proof.
  unfold match_here, tag_re, region_here.
  rewrite rmatch_chars, ngroups_chars.
  destruct (strip_prefix opening s) as [t|] eqn:Eo; [|reflexivity].
  rewrite rmatch_attrs.
  destruct (find_sub [gt] t) as [[attrs rest]|] eqn:Ea; [|reflexivity].
  cbn [rmatch].
  etransitivity.
  { exact (star_lazy_literal _ closing
             (fun n x' =>
                set_capture 1 (JString (firstn (List.length rest - n) rest)) x')
             (fun n x'' => JString (firstn (List.length s - n) s) :: x'')
             rest _). }
  destruct (find_sub closing rest) as [[inner after]|] eqn:Ec; [|reflexivity].
  apply strip_prefix_sound in Eo. apply find_sub_sound in Ea, Ec.
  cbn [ngroups]. rewrite ngroups_chars.
  cbn [ngroups Nat.max repeat set_capture].
  rewrite <- length_app.
  f_equal. f_equal; [|f_equal].
  - f_equal. subst s t. rewrite Ec.
    replace (opening ++ attrs ++ [gt] ++ inner ++ closing ++ after)
      with ((opening ++ attrs ++ [gt] ++ inner ++ closing) ++ after)
      by (now rewrite <- !app_assoc).
    apply firstn_before.
  - f_equal. rewrite Ec at 1 2.
    replace (inner ++ closing ++ after) with (inner ++ (closing ++ after))
      by reflexivity.
    apply firstn_before.
Qed.

(** [exec] on a tag pattern finds the first region. *)
Lemma exec_tag (opening closing s : str) :
  exec (tag_re opening closing) s =
  match first_region opening closing s with
  | Some (attrs, inner, after) =>
      Some [JString (opening ++ attrs ++ [gt] ++ inner ++ closing);
            JString inner]
  | None => None
  end.
Proof.
  induction s as [|c s IH]; cbn [exec first_region]; rewrite match_here_tag.
  - now destruct (region_here opening closing []) as [[[? ?] ?]|].
  - destruct (region_here opening closing (c :: s)) as [[[? ?] ?]|];
      [reflexivity|exact IH].
Qed.

(** The source's extraction refines the spec's: the fragment [Page] computes
    is the inner contents of the first region. *)
Lemma bodyContent_fragment (s : str) :
  bodyContent s = fragment (lit "<body") (lit "</body>") s.
Proof.
  unfold bodyContent, fragment, String_match.
  change bodyRe with (tag_re (lit "<body") (lit "</body>")).
  rewrite exec_tag.
  now destruct (first_region _ _ s) as [[[? ?] ?]|].
Qed.

Lemma styleContent_fragment (s : str) :
  styleContent s = fragment (lit "<style") (lit "</style>") s.
Proof.
  unfold styleContent, fragment, String_match.
  change styleRe with (tag_re (lit "<style") (lit "</style>")).
  rewrite exec_tag.
  now destruct (first_region _ _ s) as [[[? ?] ?]|].
Qed.

(* ================================================================== *)
(** ** Where the first region lies *)

Lemma has_sub_false_iff (p s : str) :
  has_sub p s = false <-> ~ exists a b, s = a ++ p ++ b.
Proof.
  rewrite <- has_sub_iff. destruct (has_sub p s); split; intros H;
    congruence || reflexivity.
Qed.

Lemma has_sub_suffix (p a b : str) :
  has_sub p (a ++ b) = false -> has_sub p b = false.
Proof.
  rewrite !has_sub_false_iff. intros H (a' & b' & ->). apply H.
  exists (a ++ a'), b'. now rewrite <- app_assoc.
Qed.

Lemma has_sub_nil_inv (p : str) :
  has_sub p [] = false -> strip_prefix p [] = None.
Proof.
  unfold has_sub; simpl. now destruct (strip_prefix p []).
Qed.

Lemma opens_in_eq (opening s : str) :
  opens_in opening s =
  match strip_prefix opening s with
  | Some t => has_sub [gt] t
  | None => false
  end
  || match s with
     | [] => false
     | _ :: s' => opens_in opening s'
     end.
Proof. destruct s; reflexivity. Qed.

Lemma first_region_eq (opening closing s : str) :
  first_region opening closing s =
  match region_here opening closing s with
  | Some r => Some r
  | None =>
      match s with
      | [] => None
      | _ :: s' => first_region opening closing s'
      end
  end.
Proof. destruct s; reflexivity. Qed.

Lemma opens_in_cons (opening s : str) (c : code_unit) :
  opens_in opening (c :: s) = false ->
  match strip_prefix opening (c :: s) with
  | Some t => has_sub [gt] t = false
  | None => True
  end /\ opens_in opening s = false.
Proof.
  cbn [opens_in]. intros H. apply orb_false_iff in H as [H1 H2].
  split; [|exact H2]. now destruct (strip_prefix opening (c :: s)).
Qed.

(** [opens_in] decides whether an opening tag lies in the text. *)
Lemma opens_in_iff (opening s : str) :
  opens_in opening s = true <->
  exists a t b, s = a ++ opening ++ t ++ [gt] ++ b.
Proof.
  split.
  - induction s as [|c s IH]; cbn [opens_in]; intros H;
      apply orb_true_iff in H as [H|H].
    + destruct (strip_prefix opening []) as [t|] eqn:E; [|discriminate].
      apply strip_prefix_sound in E. apply has_sub_iff in H as (t1 & b & ->).
      exists [], t1, b. exact E.
    + discriminate.
    + destruct (strip_prefix opening (c :: s)) as [t|] eqn:E; [|discriminate].
      apply strip_prefix_sound in E. apply has_sub_iff in H as (t1 & b & ->).
      exists [], t1, b. exact E.
    + destruct (IH H) as (a & t & b & ->). now exists (c :: a), t, b.
  - intros (a & t & b & ->). induction a as [|c a IH].
    + change ([] ++ opening ++ t ++ [gt] ++ b)
        with (opening ++ t ++ [gt] ++ b).
      assert (H : has_sub [gt] (t ++ [gt] ++ b) = true)
        by (apply has_sub_iff; now exists t, b).
      now rewrite opens_in_eq, strip_prefix_app, H.
    + change ((c :: a) ++ opening ++ t ++ [gt] ++ b)
        with (c :: (a ++ opening ++ t ++ [gt] ++ b)).
      cbn [opens_in]. rewrite IH. apply orb_true_r.
Qed.

Section FirstRegion.
(** An opening literal [oc :: o] and a closing literal [cc :: cl], neither
    of which can overlap a shifted copy of itself, and no [>] in the
    opening one: this holds of both tags of [Page]. *)
Variables (oc cc : code_unit) (o cl : str).
Hypothesis opening_first : ~ In oc o.
Hypothesis closing_first : ~ In cc cl.
Hypothesis opening_no_gt : has_sub [gt] (oc :: o) = false.

Let opening := oc :: o.
Let closing := cc :: cl.

Lemma region_here_found (attrs inner after : str) :
  has_sub [gt] attrs = false ->
  has_sub closing inner = false ->
  region_here opening closing
    (opening ++ attrs ++ [gt] ++ inner ++ closing ++ after)
  = Some (attrs, inner, after).
Proof.
  intros Ha Hi. unfold region_here.
  rewrite strip_prefix_app.
  cbn [app]. rewrite (find_gt_first _ _ Ha).
  unfold closing. now rewrite find_sub_first.
Qed.

(** With no opening tag before it, the region written out below is the one
    the scan finds; the match may begin at an earlier, unterminated
    [opening], which only lengthens the attribute text. *)
Lemma first_region_found (pre attrs inner after : str) :
  opens_in opening pre = false ->
  has_sub [gt] attrs = false ->
  has_sub closing inner = false ->
  exists attrs',
    first_region opening closing
      (pre ++ opening ++ attrs ++ [gt] ++ inner ++ closing ++ after)
    = Some (attrs', inner, after).
Proof.
  intros Hp Ha Hi. induction pre as [|d pre IH].
  - exists attrs. rewrite app_nil_l, first_region_eq.
    now rewrite (region_here_found _ _ after Ha Hi).
  - apply opens_in_cons in Hp as [Hh Hp].
    destruct (strip_prefix opening (d :: pre)) as [t|] eqn:E.
    + exists (t ++ opening ++ attrs).
      apply strip_prefix_sound in E.
      assert (Hg : has_sub [gt] (t ++ opening ++ attrs) = false)
        by (apply has_sub_app_gt; [exact Hh|now apply has_sub_app_gt]).
      replace ((d :: pre) ++ opening ++ attrs ++ [gt] ++ inner
                 ++ closing ++ after)
        with (opening ++ (t ++ opening ++ attrs) ++ [gt] ++ inner
                ++ closing ++ after)
        by (rewrite E; now rewrite <- !app_assoc).
      rewrite first_region_eq.
      now rewrite (region_here_found _ _ after Hg Hi).
    + destruct (IH Hp) as (attrs' & IH'). exists attrs'.
      rewrite first_region_eq. unfold region_here, opening.
      rewrite (strip_prefix_no_overlap oc o (d :: pre)
                 (attrs ++ [gt] ++ inner ++ closing ++ after))
        by (auto; discriminate).
      exact IH'.
Qed.
End FirstRegion.

(** No opening literal, or no closing literal, anywhere: no region. *)
Lemma first_region_no_opening (opening closing s : str) :
  has_sub opening s = false -> first_region opening closing s = None.
Proof.
  induction s as [|c s IH]; intros H; cbn [first_region]; unfold region_here.
  - now rewrite (has_sub_nil_inv _ H).
  - apply has_sub_cons in H as [Hn H]. rewrite Hn. auto.
Qed.

Lemma region_here_no_closing (opening closing s : str) :
  has_sub closing s = false -> region_here opening closing s = None.
Proof.
  intros H. unfold region_here.
  destruct (strip_prefix opening s) as [t|] eqn:Eo; [|reflexivity].
  destruct (find_sub [gt] t) as [[attrs rest]|] eqn:Ea; [|reflexivity].
  apply strip_prefix_sound in Eo. apply find_sub_sound in Ea. subst s t.
  apply has_sub_suffix in H. rewrite app_assoc in H.
  apply has_sub_suffix in H.
  unfold has_sub in H. now destruct (find_sub closing rest) as [[? ?]|].
Qed.

Lemma first_region_no_closing (opening closing s : str) :
  has_sub closing s = false -> first_region opening closing s = None.
Proof.
  induction s as [|c s IH]; intros H; cbn [first_region];
    rewrite (region_here_no_closing _ _ _ H); [reflexivity|].
  apply IH. now apply (has_sub_suffix _ [c] s).
Qed.

(* ================================================================== *)
(** ** The two extractions *)

Lemma body_literals :
  ~ In 60%N (lit "body") /\ ~ In 60%N (lit "/body>")
  /\ has_sub [gt] (lit "<body") = false.
Proof.
  repeat split; try reflexivity; cbn; intuition discriminate.
Qed.

Lemma style_literals :
  ~ In 60%N (lit "style") /\ ~ In 60%N (lit "/style>")
  /\ has_sub [gt] (lit "<style") = false.
Proof.
  repeat split; try reflexivity; cbn; intuition discriminate.
Qed.

(** What [match] returns on a text whose first body region is written out:
    the matched text ends with the first closing tag, and group 1 is the
    inner contents. *)
Lemma body_match_found (pre attrs inner after : str) :
  opens_in (lit "<body") pre = false ->
  has_sub (lit ">") attrs = false ->
  has_sub (lit "</body>") inner = false ->
  exists attrs',
    String_match
      (pre ++ lit "<body" ++ attrs ++ lit ">" ++ inner ++ lit "</body>"
           ++ after)
      bodyRe
    = Some [JString (lit "<body" ++ attrs' ++ lit ">" ++ inner
                       ++ lit "</body>");
            JString inner].
Proof.
  intros Hp Ha Hi.
  destruct body_literals as (H1 & H2 & H3).
  destruct (first_region_found 60%N 60%N (lit "body") (lit "/body>")
              H1 H2 H3 pre attrs inner after Hp Ha Hi) as (attrs' & E).
  exists attrs'. unfold String_match.
  change bodyRe with (tag_re (lit "<body") (lit "</body>")).
  rewrite exec_tag.
  change (60%N :: lit "body") with (lit "<body") in E.
  change (60%N :: lit "/body>") with (lit "</body>") in E.
  change (lit ">") with [gt].
  now rewrite E.
Qed.

Lemma style_match_found (pre attrs inner after : str) :
  opens_in (lit "<style") pre = false ->
  has_sub (lit ">") attrs = false ->
  has_sub (lit "</style>") inner = false ->
  exists attrs',
    String_match
      (pre ++ lit "<style" ++ attrs ++ lit ">" ++ inner ++ lit "</style>"
           ++ after)
      styleRe
    = Some [JString (lit "<style" ++ attrs' ++ lit ">" ++ inner
                       ++ lit "</style>");
            JString inner].
Proof.
  intros Hp Ha Hi.
  destruct style_literals as (H1 & H2 & H3).
  destruct (first_region_found 60%N 60%N (lit "style") (lit "/style>")
              H1 H2 H3 pre attrs inner after Hp Ha Hi) as (attrs' & E).
  exists attrs'. unfold String_match.
  change styleRe with (tag_re (lit "<style") (lit "</style>")).
  rewrite exec_tag.
  change (60%N :: lit "style") with (lit "<style") in E.
  change (60%N :: lit "/style>") with (lit "</style>") in E.
  change (lit ">") with [gt].
  now rewrite E.
Qed.

Lemma bodyContent_found (pre attrs inner after : str) :
  opens_in (lit "<body") pre = false ->
  has_sub (lit ">") attrs = false ->
  has_sub (lit "</body>") inner = false ->
  bodyContent
    (pre ++ lit "<body" ++ attrs ++ lit ">" ++ inner ++ lit "</body>" ++ after)
  = JString inner.
Proof.
  intros Hp Ha Hi.
  destruct (body_match_found pre attrs inner after Hp Ha Hi) as (attrs' & E).
  unfold bodyContent. now rewrite E.
Qed.

Lemma styleContent_found (pre attrs inner after : str) :
  opens_in (lit "<style") pre = false ->
  has_sub (lit ">") attrs = false ->
  has_sub (lit "</style>") inner = false ->
  styleContent
    (pre ++ lit "<style" ++ attrs ++ lit ">" ++ inner ++ lit "</style>"
         ++ after)
  = JString inner.
Proof.
  intros Hp Ha Hi.
  destruct (style_match_found pre attrs inner after Hp Ha Hi) as (attrs' & E).
  unfold styleContent. now rewrite E.
Qed.

(** A text without the opening literal, or without the closing literal, is
    not matched. *)
Lemma no_match_without_opening (opening closing s : str) :
  has_sub opening s = false ->
  String_match s (tag_re opening closing) = None.
Proof.
  intros H. unfold String_match.
  now rewrite exec_tag, first_region_no_opening.
Qed.

Lemma no_match_without_closing (opening closing s : str) :
  has_sub closing s = false ->
  String_match s (tag_re opening closing) = None.
Proof.
  intros H. unfold String_match.
  now rewrite exec_tag, first_region_no_closing.
Qed.

(** After the first [>] of a text comes at least all that follows any of
    its [>]. *)
Lemma find_gt_suffix (a rest : str) :
  exists before y, find_sub [gt] (a ++ gt :: rest) = Some (before, y ++ rest).
Proof.
  induction a as [|c a (before & y & IH)].
  - exists [], []. now rewrite find_sub_eq; cbn.
  - destruct (N.eqb_spec c gt) as [->|Hc].
    + exists [], (a ++ [gt]). rewrite find_sub_eq; cbn.
      now rewrite <- app_assoc.
    + exists (c :: before), y. rewrite find_sub_eq.
      cbn [app strip_prefix].
      destruct (N.eqb_spec c gt); [contradiction|].
      now rewrite IH.
Qed.

(** The pattern matches a text exactly when the text holds the opening
    literal, later a [>], and later the closing literal. *)
Lemma tag_match_iff (opening closing s : str) :
  String_match s (tag_re opening closing) <> None <->
  exists a attrs inner b,
    s = a ++ opening ++ attrs ++ [gt] ++ inner ++ closing ++ b.
Proof.
  unfold String_match. rewrite exec_tag. split.
  - intros H.
    assert (Hf : first_region opening closing s <> None)
      by (destruct (first_region opening closing s) as [[[? ?] ?]|];
          congruence).
    clear H. induction s as [|c s IH]; rewrite first_region_eq in Hf.
    + destruct (region_here opening closing []) as [[[attrs inner] after]|]
        eqn:E; [|congruence].
      unfold region_here in E.
      destruct (strip_prefix opening []) as [t|] eqn:Eo; [|discriminate].
      destruct (find_sub [gt] t) as [[attrs' rest]|] eqn:Ea; [|discriminate].
      destruct (find_sub closing rest) as [[inner' after']|] eqn:Ec;
        [|discriminate].
      apply strip_prefix_sound in Eo. apply find_sub_sound in Ea, Ec.
      exists [], attrs', inner', after'. subst t rest. exact Eo.
    + destruct (region_here opening closing (c :: s))
        as [[[attrs inner] after]|] eqn:E.
      * unfold region_here in E.
        destruct (strip_prefix opening (c :: s)) as [t|] eqn:Eo;
          [|discriminate].
        destruct (find_sub [gt] t) as [[attrs' rest]|] eqn:Ea;
          [|discriminate].
        destruct (find_sub closing rest) as [[inner' after']|] eqn:Ec;
          [|discriminate].
        apply strip_prefix_sound in Eo. apply find_sub_sound in Ea, Ec.
        exists [], attrs', inner', after'. subst t rest. exact Eo.
      * destruct (IH Hf) as (a & attrs' & inner' & b & ->).
        now exists (c :: a), attrs', inner', b.
  - intros (a & attrs & inner & b & ->).
    assert (Hf : first_region opening closing
                   (a ++ opening ++ attrs ++ [gt] ++ inner ++ closing ++ b)
                 <> None).
    { induction a as [|c a IH]; rewrite first_region_eq.
      - rewrite app_nil_l. unfold region_here.
        rewrite strip_prefix_app.
        destruct (find_gt_suffix attrs (inner ++ closing ++ b))
          as (before & y & E).
        change (attrs ++ [gt] ++ inner ++ closing ++ b)
          with (attrs ++ gt :: inner ++ closing ++ b).
        rewrite E.
        assert (Hc : has_sub closing (y ++ inner ++ closing ++ b) = true).
        { apply has_sub_iff. exists (y ++ inner), b.
          now rewrite <- app_assoc. }
        unfold has_sub in Hc.
        destruct (find_sub closing (y ++ inner ++ closing ++ b))
          as [[? ?]|]; [discriminate|discriminate].
      - destruct (region_here opening closing
                    ((c :: a) ++ opening ++ attrs ++ [gt] ++ inner
                       ++ closing ++ b)); [discriminate|exact IH]. }
    destruct (first_region opening closing
                (a ++ opening ++ attrs ++ [gt] ++ inner ++ closing ++ b))
      as [[[? ?] ?]|]; congruence.
Qed.

(** No [<style] at all, or no [</style>] at all: the style pattern does not
    match. *)
Lemma no_style_tag (s : str) :
  has_sub (lit "<style") s = false -> String_match s styleRe = None.
Proof. apply (no_match_without_opening (lit "<style") (lit "</style>")). Qed.

Lemma unclosed_style_tag (s : str) :
  has_sub (lit "</style>") s = false -> String_match s styleRe = None.
Proof. apply (no_match_without_closing (lit "<style") (lit "</style>")). Qed.

(** Nested tags are cut at the first closing tag. *)
Example nested_body_cut :
  bodyContent (lit "<body>a<body>b</body>c</body>")
  = JString (lit "a<body>b").
Proof. reflexivity. Qed.

(* ================================================================== *)
(** ** Properties of the body and style extraction *)

(** C1. A text whose first body region is [<body>Hello</body>] (no opening
    tag [<body...>] lies in the text before it) gives the body fragment
    [Hello], exactly. *)
Theorem body_hello_exact (pre post : str) :
  opens_in (lit "<body") pre = false ->
  bodyContent (pre ++ lit "<body>Hello</body>" ++ post)
  = JString (lit "Hello").
Proof.
  intros Hp.
  change (lit "<body>Hello</body>" ++ post)
    with (lit "<body" ++ [] ++ lit ">" ++ lit "Hello" ++ lit "</body>" ++ post).
  now apply bodyContent_found.
Qed.

Lemma body_hello_exact_witness :
  opens_in (lit "<body") (lit "<html><head></head>") = false
  /\ bodyContent (lit "<html><head></head><body>Hello</body></html>")
     = JString (lit "Hello").
Proof.
  split; [reflexivity|].
  apply (body_hello_exact (lit "<html><head></head>") (lit "</html>")).
  reflexivity.
Defined.

(** C2. In a text with two body regions, the match ends at the first
    closing tag after the first opening tag: the matched text is the first
    region, the fragment is the inner contents of the first region, and the
    second region is left unread after the match. *)
Theorem body_first_of_two (pre attrs1 inner1 mid attrs2 inner2 post : str) :
  opens_in (lit "<body") pre = false ->
  has_sub (lit ">") attrs1 = false ->
  has_sub (lit "</body>") inner1 = false ->
  let second := lit "<body" ++ attrs2 ++ lit ">" ++ inner2 ++ lit "</body>" in
  let text :=
    pre ++ lit "<body" ++ attrs1 ++ lit ">" ++ inner1 ++ lit "</body>"
        ++ mid ++ second ++ post in
  bodyContent text = JString inner1
  /\ exists attrs',
       String_match text bodyRe
       = Some [JString (lit "<body" ++ attrs' ++ lit ">" ++ inner1
                          ++ lit "</body>");
               JString inner1].
Proof.
  intros Hp Ha Hi second text. split.
  - now apply bodyContent_found.
  - now apply body_match_found.
Qed.

Lemma body_first_of_two_witness :
  bodyContent (lit "<p>x</p><body>One</body><hr><body id=b>Two</body>!")
  = JString (lit "One")
  /\ exists attrs',
       String_match (lit "<p>x</p><body>One</body><hr><body id=b>Two</body>!")
         bodyRe
       = Some [JString (lit "<body" ++ attrs' ++ lit ">" ++ lit "One"
                          ++ lit "</body>");
               JString (lit "One")].
Proof.
  apply (body_first_of_two (lit "<p>x</p>") [] (lit "One") (lit "<hr>")
           (lit " id=b") (lit "Two") (lit "!")); reflexivity.
Defined.

(** C5, as stated, fails: the opening tag ends at the first [>], also when
    that [>] stands inside a quoted attribute value.  For a body tag whose
    [title] attribute has the quoted value [a>b], with inner contents [Hi],
    the fragment is not [Hi]: it begins with the rest of the attribute. *)
Lemma body_attributes_ignored_counterexample :
  bodyContent
    (lit "<body title=" ++ [dquote] ++ lit "a>b" ++ [dquote]
         ++ lit ">Hi</body>")
  = JString (lit "b" ++ [dquote] ++ lit ">Hi")
  /\ bodyContent
       (lit "<body title=" ++ [dquote] ++ lit "a>b" ++ [dquote]
            ++ lit ">Hi</body>")
     <> JString (lit "Hi").
Proof. split; [reflexivity|discriminate]. Qed.

(** C5, as amended. When the opening tag of the first body region carries
    attributes that hold no [>], the fragment is the inner contents only;
    for [<body class=x>Hi</body>] with a quoted [x] it is [Hi]. *)
Theorem body_attributes_ignored (pre attrs inner post : str) :
  opens_in (lit "<body") pre = false ->
  has_sub (lit ">") attrs = false ->
  has_sub (lit "</body>") inner = false ->
  bodyContent
    (pre ++ lit "<body" ++ attrs ++ lit ">" ++ inner ++ lit "</body>" ++ post)
  = JString inner.
Proof. apply bodyContent_found. Qed.

Lemma body_attributes_ignored_witness :
  bodyContent
    ([] ++ lit "<body"
        ++ (lit " class=" ++ [dquote] ++ lit "x" ++ [dquote])
        ++ lit ">" ++ lit "Hi" ++ lit "</body>" ++ [])
  = JString (lit "Hi").
Proof.
  apply (body_attributes_ignored []
           (lit " class=" ++ [dquote] ++ lit "x" ++ [dquote])
           (lit "Hi") []); reflexivity.
Defined.

(** C6. A text whose first style region is [<style>.a{color:red}</style>]
    gives the style fragment [.a{color:red}], exactly. *)
Theorem style_rule_exact (pre post : str) :
  opens_in (lit "<style") pre = false ->
  styleContent (pre ++ lit "<style>.a{color:red}</style>" ++ post)
  = JString (lit ".a{color:red}").
Proof.
  intros Hp.
  change (lit "<style>.a{color:red}</style>" ++ post)
    with (lit "<style" ++ [] ++ lit ">" ++ lit ".a{color:red}"
            ++ lit "</style>" ++ post).
  now apply styleContent_found.
Qed.

Lemma style_rule_exact_witness :
  opens_in (lit "<style") (lit "<html><head>") = false
  /\ styleContent
       (lit "<html><head><style>.a{color:red}</style></head></html>")
     = JString (lit ".a{color:red}").
Proof.
  split; [reflexivity|].
  apply (style_rule_exact (lit "<html><head>") (lit "</head></html>")).
  reflexivity.
Defined.

(** C9. The opening pattern is satisfied by a longer tag name: the text
    [<bodyx>Hi</body>] holds no [<body>] tag, with or without attributes,
    and its body fragment is [Hi]; likewise [<stylex>Hi</style>]. *)
Theorem longer_tag_name_accepted :
  has_sub (lit "<body>") (lit "<bodyx>Hi</body>") = false
  /\ has_sub (lit "<body ") (lit "<bodyx>Hi</body>") = false
  /\ bodyContent (lit "<bodyx>Hi</body>") = JString (lit "Hi")
  /\ has_sub (lit "<style>") (lit "<stylex>Hi</style>") = false
  /\ has_sub (lit "<style ") (lit "<stylex>Hi</style>") = false
  /\ styleContent (lit "<stylex>Hi</style>") = JString (lit "Hi").
Proof. repeat split; reflexivity. Qed.

(** Any continuation of the tag name is taken as attribute text. *)
Lemma tag_name_continuation (x inner : str) :
  has_sub (lit ">") x = false ->
  has_sub (lit "</body>") inner = false ->
  bodyContent (lit "<body" ++ x ++ lit ">" ++ inner ++ lit "</body>")
  = JString inner.
Proof.
  intros Hx Hi.
  rewrite <- (app_nil_r (lit "</body>")).
  now apply (bodyContent_found [] x inner []).
Qed.

(** C10. Matching is case-sensitive: a text with a body region in
    upper-case tags and no lower-case [<body] anywhere gives the empty body
    fragment, whatever else it holds; likewise a text with a style region in
    upper-case tags and no lower-case [<style] gives the empty style
    fragment. *)
Theorem upper_case_tags_not_matched (pre inner post : str) :
  let body_text := pre ++ lit "<BODY>" ++ inner ++ lit "</BODY>" ++ post in
  let style_text := pre ++ lit "<STYLE>" ++ inner ++ lit "</STYLE>" ++ post in
  (has_sub (lit "<body") body_text = false ->
   bodyContent body_text = JString [])
  /\ (has_sub (lit "<style") style_text = false ->
      styleContent style_text = JString []).
Proof.
  intros body_text style_text.
  rewrite bodyContent_fragment, styleContent_fragment. unfold fragment.
  split; intros H; now rewrite first_region_no_opening.
Qed.

Lemma upper_case_tags_not_matched_witness :
  bodyContent
    (lit "<style>p{}</style>" ++ lit "<BODY>" ++ lit "Hi" ++ lit "</BODY>"
         ++ lit "</HTML>")
  = JString []
  /\ styleContent
       (lit "<body>" ++ lit "<STYLE>" ++ lit "p{}" ++ lit "</STYLE>"
            ++ lit "</body>")
     = JString [].
Proof.
  split.
  - apply (proj1 (upper_case_tags_not_matched (lit "<style>p{}</style>")
                    (lit "Hi") (lit "</HTML>"))).
    reflexivity.
  - apply (proj2 (upper_case_tags_not_matched (lit "<body>") (lit "p{}")
                    (lit "</body>"))).
    reflexivity.
Defined.

Example upper_case_example :
  bodyContent (lit "<BODY>Hi</BODY>") = JString []
  /\ styleContent (lit "<STYLE>p{}</STYLE>") = JString [].
Proof. split; reflexivity. Qed.

(* ================================================================== *)
(** ** Properties of the render operation *)

Section Render.
Variable path_join : str -> str -> str.
Variable utf8_decode : list Byte.byte -> str.

(** One run of [Page]: a removed working directory stops it before any
    read; otherwise the outcome is by what the path names. *)
Lemma Page_run (w : world) :
  let path := htmlPath path_join w in
  Page path_join utf8_decode w =
  if cwd_removed w
  then (Thrown (SystemError ENOENT sys_uv_cwd None), w, [])
  else
    match disk w path with
    | RegularFile content =>
        (Returned (rendered (utf8_decode content)), w, [FsRead path])
    | Missing =>
        (Thrown (SystemError ENOENT sys_open (Some path)), w, [FsRead path])
    | Denied =>
        (Thrown (SystemError EACCES sys_open (Some path)), w, [FsRead path])
    | Directory =>
        (Thrown (SystemError EISDIR sys_read None), w, [FsRead path])
    end.
Proof.
  unfold Page, bind, process_cwd, readFileSync, htmlPath, ret.
  cbv zeta.
  destruct (cwd_removed w); [reflexivity|].
  now destruct (disk w (path_join (cwd w) (lit "index.html"))).
Qed.

Lemma Page_leaves_world (w : world) :
  final_world (Page path_join utf8_decode w) = w.
Proof.
  rewrite Page_run. cbv zeta.
  destruct (cwd_removed w); [reflexivity|].
  now destruct (disk w (htmlPath path_join w)).
Qed.

(** C3. When [index.html] in the working directory is missing or cannot be
    read, the render throws: its outcome is an error and never a returned
    element. *)
Theorem missing_file_throws (w : world) :
  (forall content, disk w (htmlPath path_join w) <> RegularFile content) ->
  exists e,
    result (Page path_join utf8_decode w) = Thrown e
    /\ forall el, result (Page path_join utf8_decode w) <> Returned el.
Proof.
  intros H. rewrite Page_run. cbv zeta.
  destruct (cwd_removed w).
  - eexists; cbn; split; [reflexivity|discriminate].
  - destruct (disk w (htmlPath path_join w)) as [| | |content] eqn:E;
      [| | |now destruct (H content)];
      eexists; cbn; (split; [reflexivity|discriminate]).
Qed.

(** C4. When the style pattern does not match the text, the style fragment
    is the empty string and the render returns normally, with that empty
    style element and the body element. *)
Theorem style_mismatch_is_empty (w : world) (content : list Byte.byte) :
  cwd_removed w = false ->
  disk w (htmlPath path_join w) = RegularFile content ->
  String_match (utf8_decode content) styleRe = None ->
  styleContent (utf8_decode content) = JString []
  /\ result (Page path_join utf8_decode w)
     = Returned (Fragment [Element "style" (JString []);
                           Element "div" (bodyContent (utf8_decode content))]).
Proof.
  intros Hd Hf Hm.
  assert (Hs : styleContent (utf8_decode content) = JString [])
    by (unfold styleContent; now rewrite Hm).
  split; [exact Hs|].
  rewrite Page_run. cbv zeta. rewrite Hd, Hf.
  unfold result, rendered; cbn [fst].
  now rewrite Hs.
Qed.

(** C7. Two renders in succession, the second in the world the first one
    left, have the same outcome: the same element with the same two
    fragments, or the same error. *)
Theorem render_twice_same (w : world) :
  let first := Page path_join utf8_decode w in
  let second := Page path_join utf8_decode (final_world first) in
  result second = result first.
Proof.
  intros first second. unfold second, first.
  now rewrite Page_leaves_world.
Qed.

(** The outcome depends on the world through the text of the file only. *)
Lemma render_of_text (w1 w2 : world) (c1 c2 : list Byte.byte) :
  cwd_removed w1 = false ->
  cwd_removed w2 = false ->
  disk w1 (htmlPath path_join w1) = RegularFile c1 ->
  disk w2 (htmlPath path_join w2) = RegularFile c2 ->
  utf8_decode c1 = utf8_decode c2 ->
  result (Page path_join utf8_decode w1)
  = result (Page path_join utf8_decode w2).
Proof.
  intros D1 D2 H1 H2 E. rewrite !Page_run. cbv zeta.
  rewrite D1, D2, H1, H2. unfold result; cbn [fst].
  now rewrite E.
Qed.

(** C8, as amended. A render leaves the world as it found it and makes no
    write.  It makes at most one file-system call: exactly one, the read of
    [index.html], when [process.cwd()] returns, and none when the working
    directory has been removed and [process.cwd()] throws. *)
Theorem render_read_only (w : world) :
  final_world (Page path_join utf8_decode w) = w
  /\ calls (Page path_join utf8_decode w)
     = (if cwd_removed w then [] else [FsRead (htmlPath path_join w)])
  /\ forall p, ~ In (FsWrite p) (calls (Page path_join utf8_decode w)).
Proof.
  rewrite Page_run. cbv zeta.
  destruct (cwd_removed w).
  - cbn. repeat split. intros p [].
  - destruct (disk w (htmlPath path_join w)); cbn;
      (split; [reflexivity|split; [reflexivity|]]);
      intros p [H|[]]; discriminate.
Qed.
End Render.

(** C8, as stated, fails: in a process whose working directory has been
    removed, [process.cwd()] throws and the render makes no file-system
    read at all, not exactly one. *)
Lemma render_read_only_counterexample :
  calls (Page Sample.join Sample.decode Sample.removed_app) = []
  /\ List.length (calls (Page Sample.join Sample.decode Sample.removed_app))
     <> 1
  /\ result (Page Sample.join Sample.decode Sample.removed_app)
     = Thrown (SystemError ENOENT sys_uv_cwd None).
Proof. repeat split. discriminate. Qed.

Lemma missing_file_throws_witness :
  exists e,
    result (Page Sample.join Sample.decode Sample.empty_app) = Thrown e
    /\ forall el,
         result (Page Sample.join Sample.decode Sample.empty_app)
         <> Returned el.
Proof.
  apply (missing_file_throws Sample.join Sample.decode Sample.empty_app).
  intros content; discriminate.
Defined.

Lemma style_mismatch_is_empty_witness :
  styleContent (lit "<body><style>p{}</body>") = JString []
  /\ result (Page Sample.join Sample.decode
               (Sample.app_with "<body><style>p{}</body>"))
     = Returned (Fragment [Element "style" (JString []);
                           Element "div" (JString (lit "<style>p{}"))]).
Proof.
  apply (style_mismatch_is_empty Sample.join Sample.decode
           (Sample.app_with "<body><style>p{}</body>")
           (list_byte_of_string "<body><style>p{}</body>"));
    reflexivity.
Defined.

(* ================================================================== *)
(** ** Further facts about occurrences and regions *)

Lemma strip_prefix_app_long (p s u : str) :
  List.length p <= List.length s ->
  strip_prefix p (s ++ u) =
  match strip_prefix p s with
  | Some r => Some (r ++ u)
  | None => None
  end.
Proof.
  revert s; induction p as [|c p IH]; intros s H; [reflexivity|].
  destruct s as [|d s]; cbn in *; [lia|].
  destruct (d =? c)%N; [apply IH; lia|reflexivity].
Qed.

(** Text added at the end does not move the first occurrence. *)
Lemma find_sub_app_r (p s u a b : str) :
  find_sub p s = Some (a, b) -> find_sub p (s ++ u) = Some (a, b ++ u).
Proof.
  revert a b; induction s as [|c s IH]; intros a b H;
    rewrite find_sub_eq in H; rewrite find_sub_eq.
  - destruct (strip_prefix p []) as [r|] eqn:E; [|discriminate].
    inversion H; subst. now rewrite (strip_prefix_extend _ _ u _ E).
  - destruct (strip_prefix p (c :: s)) as [r|] eqn:E.
    + inversion H; subst. now rewrite (strip_prefix_extend _ _ u _ E).
    + destruct (find_sub p s) as [[a' b']|] eqn:F; [|discriminate].
      inversion H; subst.
      assert (Hl : List.length p <= List.length (c :: s)).
      { apply find_sub_sound in F. rewrite F; cbn.
        rewrite !length_app. lia. }
      rewrite (strip_prefix_app_long _ _ u Hl), E.
      change ((c :: s) ++ u) with (c :: (s ++ u)). cbv beta iota.
      now rewrite (IH _ _ eq_refl).
Qed.

(** The text before the first occurrence holds no occurrence. *)
Lemma find_sub_before_free (c : code_unit) (p s a b : str) :
  find_sub (c :: p) s = Some (a, b) -> has_sub (c :: p) a = false.
Proof.
  revert a b; induction s as [|d s IH]; intros a b H;
    rewrite find_sub_eq in H.
  - discriminate.
  - destruct (strip_prefix (c :: p) (d :: s)) as [r|] eqn:E.
    + inversion H; subst. reflexivity.
    + destruct (find_sub (c :: p) s) as [[a' b']|] eqn:F; [|discriminate].
      inversion H; subst.
      specialize (IH _ _ eq_refl). apply find_sub_sound in F.
      unfold has_sub in *. rewrite find_sub_eq.
      destruct (strip_prefix (c :: p) (d :: a')) as [r|] eqn:E'.
      * apply (strip_prefix_extend _ _ ((c :: p) ++ b)) in E'.
        change ((d :: a') ++ (c :: p) ++ b) with (d :: (a' ++ (c :: p) ++ b))
          in E'.
        rewrite <- F in E'. congruence.
      * now destruct (find_sub (c :: p) a') as [[? ?]|].
Qed.

(** What a region found at the head of [s] says about [s]. *)
Lemma region_here_sound (cc : code_unit)
      (cl opening s attrs inner after : str) :
  region_here opening (cc :: cl) s = Some (attrs, inner, after) ->
  s = opening ++ attrs ++ [gt] ++ inner ++ (cc :: cl) ++ after
  /\ has_sub [gt] attrs = false
  /\ has_sub (cc :: cl) inner = false.
Proof.
  unfold region_here. intros H.
  destruct (strip_prefix opening s) as [t|] eqn:Eo; [|discriminate].
  destruct (find_sub [gt] t) as [[attrs' rest]|] eqn:Ea; [|discriminate].
  destruct (find_sub (cc :: cl) rest) as [[inner' after']|] eqn:Ec;
    [|discriminate].
  inversion H; subst.
  split; [|split].
  - apply strip_prefix_sound in Eo. apply find_sub_sound in Ea, Ec.
    now subst.
  - exact (find_sub_before_free gt [] _ _ _ Ea).
  - exact (find_sub_before_free _ _ _ _ _ Ec).
Qed.

Lemma first_region_sound (cc : code_unit)
      (cl opening s attrs inner after : str) :
  first_region opening (cc :: cl) s = Some (attrs, inner, after) ->
  exists a,
    s = a ++ opening ++ attrs ++ [gt] ++ inner ++ (cc :: cl) ++ after
    /\ has_sub [gt] attrs = false
    /\ has_sub (cc :: cl) inner = false.
Proof.
  induction s as [|c s IH]; rewrite first_region_eq; intros H.
  - destruct (region_here opening (cc :: cl) []) as [r|] eqn:E;
      [|discriminate].
    inversion H; subst. exists []. now apply region_here_sound.
  - destruct (region_here opening (cc :: cl) (c :: s)) as [r|] eqn:E.
    + inversion H; subst. exists []. now apply region_here_sound.
    + destruct (IH H) as (a & -> & Ha & Hi). now exists (c :: a).
Qed.

(** The spec's fragment is a piece of the text that holds no closing
    literal. *)
Lemma fragment_piece (cc : code_unit) (cl opening s : str) :
  exists inner a b,
    fragment opening (cc :: cl) s = JString inner
    /\ s = a ++ inner ++ b
    /\ has_sub (cc :: cl) inner = false.
Proof.
  unfold fragment.
  destruct (first_region opening (cc :: cl) s) as [[[attrs inner] after]|]
    eqn:E.
  - destruct (first_region_sound _ _ _ _ _ _ _ E) as (a & -> & _ & Hi).
    exists inner, (a ++ opening ++ attrs ++ [gt]), ((cc :: cl) ++ after).
    repeat split; [|exact Hi]. now rewrite <- !app_assoc.
  - exists [], [], s. repeat split.
Qed.

(** A region at the head of a text stays one when text is added at the
    end. *)
Lemma region_here_app (opening closing s u attrs inner after : str) :
  region_here opening closing s = Some (attrs, inner, after) ->
  region_here opening closing (s ++ u) = Some (attrs, inner, after ++ u).
Proof.
  unfold region_here. intros H.
  destruct (strip_prefix opening s) as [t|] eqn:Eo; [|discriminate].
  destruct (find_sub [gt] t) as [[attrs' rest]|] eqn:Ea; [|discriminate].
  destruct (find_sub closing rest) as [[inner' after']|] eqn:Ec;
    [|discriminate].
  inversion H; subst.
  rewrite (strip_prefix_extend _ _ u _ Eo).
  rewrite (find_sub_app_r _ _ u _ _ Ea).
  now rewrite (find_sub_app_r _ _ u _ _ Ec).
Qed.

(** When a region lies further right, an opening literal at the head also
    starts one: the [>] and the closing literal of the later region serve. *)
Lemma region_here_before_later (cc : code_unit)
      (cl opening s t attrs inner after : str) (c : code_unit) :
  strip_prefix opening (c :: s) = Some t ->
  first_region opening (cc :: cl) s = Some (attrs, inner, after) ->
  region_here opening (cc :: cl) (c :: s) <> None.
Proof.
  intros Eo Hf.
  destruct (first_region_sound _ _ _ _ _ _ _ Hf) as (a & Hs & _ & _).
  apply strip_prefix_sound in Eo.
  assert (Ht : exists y, t = y ++ gt :: inner ++ (cc :: cl) ++ after).
  { assert (E : opening ++ t
                = (c :: a ++ opening)
                    ++ attrs ++ [gt] ++ inner ++ (cc :: cl) ++ after)
      by (rewrite <- Eo, Hs; cbn; now rewrite <- !app_assoc).
    apply app_eq_app in E as (l & [[E1 E2]|[E1 E2]]).
    - apply (f_equal (@List.length _)) in E1.
      cbn in E1. rewrite !length_app in E1. cbn in E1. lia.
    - exists (l ++ attrs). rewrite E2. now rewrite <- app_assoc. }
  destruct Ht as (y & ->).
  unfold region_here. rewrite Eo, strip_prefix_app.
  destruct (find_gt_suffix y (inner ++ (cc :: cl) ++ after))
    as (before & z & ->).
  assert (Hc : has_sub (cc :: cl) (z ++ inner ++ (cc :: cl) ++ after) = true).
  { apply has_sub_iff. exists (z ++ inner), after.
    now rewrite <- app_assoc. }
  unfold has_sub in Hc.
  destruct (find_sub (cc :: cl) (z ++ inner ++ (cc :: cl) ++ after))
    as [[? ?]|]; [discriminate|discriminate].
Qed.

(** The first region of a text is still the first after text is added at
    the end. *)
Lemma first_region_app (cc : code_unit)
      (cl opening s u attrs inner after : str) :
  first_region opening (cc :: cl) s = Some (attrs, inner, after) ->
  first_region opening (cc :: cl) (s ++ u) = Some (attrs, inner, after ++ u).
Proof.
  induction s as [|c s IH]; rewrite first_region_eq; intros H;
    rewrite first_region_eq.
  - destruct (region_here opening (cc :: cl) []) as [[[? ?] ?]|] eqn:E;
      [|discriminate].
    inversion H; subst. now rewrite (region_here_app _ _ _ u _ _ _ E).
  - destruct (region_here opening (cc :: cl) (c :: s)) as [[[? ?] ?]|] eqn:E.
    + inversion H; subst. now rewrite (region_here_app _ _ _ u _ _ _ E).
    + assert (Eo : strip_prefix opening (c :: s) = None).
      { destruct (strip_prefix opening (c :: s)) as [t|] eqn:Eo;
          [|reflexivity].
        exfalso. eapply region_here_before_later; eauto. }
      assert (Hl : List.length opening <= List.length (c :: s)).
      { destruct (first_region_sound _ _ _ _ _ _ _ H) as (a & -> & _).
        cbn. rewrite !length_app. lia. }
      unfold region_here at 1.
      rewrite (strip_prefix_app_long _ _ u Hl), Eo.
      change ((c :: s) ++ u) with (c :: (s ++ u)). cbv beta iota.
      now apply IH.
Qed.

(** Text without the opening literal, in front of it, is passed over. *)
Lemma first_region_skip (oc : code_unit) (o closing pre rest : str) :
  ~ In oc o ->
  has_sub (oc :: o) pre = false ->
  first_region (oc :: o) closing (pre ++ (oc :: o) ++ rest)
  = first_region (oc :: o) closing ((oc :: o) ++ rest).
Proof.
  intros Hc; induction pre as [|d pre IH]; intros Hp; [reflexivity|].
  apply has_sub_cons in Hp as [Hn Hp].
  rewrite first_region_eq. unfold region_here at 1.
  rewrite (strip_prefix_no_overlap oc o (d :: pre) rest)
    by (auto; discriminate).
  change ((d :: pre) ++ (oc :: o) ++ rest)
    with (d :: (pre ++ (oc :: o) ++ rest)).
  cbv beta iota. now apply IH.
Qed.

(** A text that starts with an opening tag without attributes: the inner
    contents run to the first closing literal. *)
Lemma fragment_wrap (cc : code_unit) (cl opening inner post : str) :
  ~ In cc cl ->
  fragment opening (cc :: cl)
    (opening ++ [gt] ++ inner ++ (cc :: cl) ++ post)
  = JString (up_to_first (cc :: cl) inner).
Proof.
  intros Hc. unfold fragment, up_to_first.
  rewrite first_region_eq. unfold region_here.
  rewrite strip_prefix_app.
  change ([gt] ++ inner ++ (cc :: cl) ++ post)
    with ([] ++ gt :: inner ++ (cc :: cl) ++ post).
  rewrite (find_gt_first [] _ eq_refl).
  destruct (find_sub (cc :: cl) inner) as [[a b]|] eqn:E.
  - now rewrite (find_sub_app_r _ _ ((cc :: cl) ++ post) _ _ E).
  - assert (Hi : has_sub (cc :: cl) inner = false)
      by (unfold has_sub; now rewrite E).
    now rewrite (find_sub_first cc cl inner post Hc Hi).
Qed.

(* ================================================================== *)
(** ** Further properties of the two extractions *)

(** X1. Whatever the text, both fragments are strings (group 1 of a match
    is never [undefined]) and each is a contiguous piece of the text:
    nothing is added or changed. *)
Theorem fragments_are_pieces_of_text (t : str) :
  (exists s a b, bodyContent t = JString s /\ t = a ++ s ++ b)
  /\ (exists s a b, styleContent t = JString s /\ t = a ++ s ++ b).
Proof.
  rewrite bodyContent_fragment, styleContent_fragment. split.
  - destruct (fragment_piece 60%N (lit "/body>") (lit "<body") t)
      as (s & a & b & E & Ht & _).
    now exists s, a, b.
  - destruct (fragment_piece 60%N (lit "/style>") (lit "<style") t)
      as (s & a & b & E & Ht & _).
    now exists s, a, b.
Qed.

(** X2. The body fragment never holds [</body>] and the style fragment never
    holds [</style>]: the lazy group stops at the first closing tag. *)
Theorem fragments_hold_no_closing_tag (t : str) :
  (exists s, bodyContent t = JString s /\ has_sub (lit "</body>") s = false)
  /\ (exists s,
        styleContent t = JString s /\ has_sub (lit "</style>") s = false).
Proof.
  rewrite bodyContent_fragment, styleContent_fragment. split.
  - destruct (fragment_piece 60%N (lit "/body>") (lit "<body") t)
      as (s & a & b & E & _ & Hs).
    now exists s.
  - destruct (fragment_piece 60%N (lit "/style>") (lit "<style") t)
      as (s & a & b & E & _ & Hs).
    now exists s.
Qed.

(** X3. The body pattern matches a text exactly when the text holds [<body],
    somewhere after it a [>], and somewhere after that [</body>]; the style
    pattern likewise. *)
Theorem patterns_match_iff (t : str) :
  (String_match t bodyRe <> None <->
   exists a attrs inner b,
     t = a ++ lit "<body" ++ attrs ++ lit ">" ++ inner ++ lit "</body>" ++ b)
  /\ (String_match t styleRe <> None <->
      exists a attrs inner b,
        t = a ++ lit "<style" ++ attrs ++ lit ">" ++ inner ++ lit "</style>"
              ++ b).
Proof.
  split.
  - exact (tag_match_iff (lit "<body") (lit "</body>") t).
  - exact (tag_match_iff (lit "<style") (lit "</style>") t).
Qed.

(** X4. For a text that starts with [<body>], the body fragment of
    [<body>] + inner + [</body>] + rest is the part of inner before its first
    [</body>], and all of inner when it holds none; likewise for
    [<style>]. *)
Theorem wrapped_text_cut_at_first_closing (inner post : str) :
  bodyContent (lit "<body>" ++ inner ++ lit "</body>" ++ post)
  = JString (up_to_first (lit "</body>") inner)
  /\ styleContent (lit "<style>" ++ inner ++ lit "</style>" ++ post)
     = JString (up_to_first (lit "</style>") inner).
Proof.
  rewrite bodyContent_fragment, styleContent_fragment. split.
  - apply (fragment_wrap 60%N (lit "/body>") (lit "<body") inner post).
    apply body_literals.
  - apply (fragment_wrap 60%N (lit "/style>") (lit "<style") inner post).
    apply style_literals.
Qed.

(** X5. A text without [</body>] has the empty body fragment, and a text
    without [</style>] the empty style fragment, whatever opening tags it
    holds. *)
Theorem unclosed_region_is_empty (tb ts : str) :
  has_sub (lit "</body>") tb = false ->
  has_sub (lit "</style>") ts = false ->
  bodyContent tb = JString [] /\ styleContent ts = JString [].
Proof.
  intros Hb Hs.
  rewrite bodyContent_fragment, styleContent_fragment. unfold fragment.
  now rewrite !first_region_no_closing.
Qed.

Lemma unclosed_region_is_empty_witness :
  bodyContent (lit "<html><body><p>never closed</p></html>") = JString []
  /\ styleContent (lit "<style>p{color:red}<body>Hi</body>") = JString [].
Proof.
  apply (unclosed_region_is_empty
           (lit "<html><body><p>never closed</p></html>")
           (lit "<style>p{color:red}<body>Hi</body>")); reflexivity.
Defined.

(** X6. Once the body pattern matches a text, text added after it does not
    change the body fragment; the same holds of the style pattern. *)
Theorem text_after_match_is_ignored (t u : str) :
  (String_match t bodyRe <> None -> bodyContent (t ++ u) = bodyContent t)
  /\ (String_match t styleRe <> None ->
      styleContent (t ++ u) = styleContent t).
Proof.
  rewrite !bodyContent_fragment, !styleContent_fragment.
  unfold String_match, fragment.
  change bodyRe with (tag_re (lit "<body") (lit "</body>")).
  change styleRe with (tag_re (lit "<style") (lit "</style>")).
  rewrite !exec_tag. split; intros H.
  - destruct (first_region (lit "<body") (lit "</body>") t)
      as [[[attrs inner] after]|] eqn:E; [|congruence].
    pose proof (first_region_app 60%N (lit "/body>") (lit "<body") t u
                  attrs inner after E) as E'.
    change (60%N :: lit "/body>") with (lit "</body>") in E'.
    now rewrite E'.
  - destruct (first_region (lit "<style") (lit "</style>") t)
      as [[[attrs inner] after]|] eqn:E; [|congruence].
    pose proof (first_region_app 60%N (lit "/style>") (lit "<style") t u
                  attrs inner after E) as E'.
    change (60%N :: lit "/style>") with (lit "</style>") in E'.
    now rewrite E'.
Qed.

Lemma text_after_match_is_ignored_witness :
  bodyContent (lit "<body>A</body>" ++ lit "<body>B</body><script>")
  = bodyContent (lit "<body>A</body>")
  /\ styleContent (lit "<style>a{}</style>" ++ lit "<style>b{}</style>")
     = styleContent (lit "<style>a{}</style>").
Proof.
  split.
  - apply (proj1 (text_after_match_is_ignored (lit "<body>A</body>")
                    (lit "<body>B</body><script>"))).
    discriminate.
  - apply (proj2 (text_after_match_is_ignored (lit "<style>a{}</style>")
                    (lit "<style>b{}</style>"))).
    discriminate.
Defined.

(** X7. Text in front of the first [<body] has no influence on the body
    fragment, whatever else that text holds; and text in front of the first
    [<style] has none on the style fragment. *)
Theorem text_before_opening_is_ignored (pre rest : str) :
  (has_sub (lit "<body") pre = false ->
   bodyContent (pre ++ lit "<body" ++ rest)
   = bodyContent (lit "<body" ++ rest))
  /\ (has_sub (lit "<style") pre = false ->
      styleContent (pre ++ lit "<style" ++ rest)
      = styleContent (lit "<style" ++ rest)).
Proof.
  rewrite !bodyContent_fragment, !styleContent_fragment. unfold fragment.
  split; intros H.
  - pose proof (first_region_skip 60%N (lit "body") (lit "</body>") pre rest
                  (proj1 body_literals) H) as E.
    change (60%N :: lit "body") with (lit "<body") in E.
    now rewrite E.
  - pose proof (first_region_skip 60%N (lit "style") (lit "</style>") pre
                  rest (proj1 style_literals) H) as E.
    change (60%N :: lit "style") with (lit "<style") in E.
    now rewrite E.
Qed.

Lemma text_before_opening_is_ignored_witness :
  bodyContent
    (lit "<html><head><style>p{}</style></head>" ++ lit "<body"
         ++ lit ">x</body>")
  = bodyContent (lit "<body" ++ lit ">x</body>")
  /\ styleContent
       (lit "<html><body>Hi</body>" ++ lit "<style" ++ lit ">p{}</style>")
     = styleContent (lit "<style" ++ lit ">p{}</style>").
Proof.
  split.
  - apply (proj1 (text_before_opening_is_ignored
                    (lit "<html><head><style>p{}</style></head>")
                    (lit ">x</body>"))).
    reflexivity.
  - apply (proj2 (text_before_opening_is_ignored
                    (lit "<html><body>Hi</body>") (lit ">p{}</style>"))).
    reflexivity.
Defined.

(** X8. A style region that stands inside the first body region is
    extracted twice: its inner contents are the style fragment, and the
    whole region is part of the body fragment. *)
Theorem style_inside_body_is_emitted_twice
        (pre battrs a sattrs css b post : str) :
  let style_region :=
    lit "<style" ++ sattrs ++ lit ">" ++ css ++ lit "</style>" in
  let inner := a ++ style_region ++ b in
  let text :=
    pre ++ lit "<body" ++ battrs ++ lit ">" ++ inner ++ lit "</body>" ++ post in
  opens_in (lit "<body") pre = false ->
  has_sub (lit ">") battrs = false ->
  has_sub (lit "</body>") inner = false ->
  opens_in (lit "<style") (pre ++ lit "<body" ++ battrs ++ lit ">" ++ a)
  = false ->
  has_sub (lit ">") sattrs = false ->
  has_sub (lit "</style>") css = false ->
  bodyContent text = JString inner /\ styleContent text = JString css.
Proof.
  intros style_region inner text Hp Hb Hi Hps Hs Hc. split.
  - now apply bodyContent_found.
  - replace text
      with ((pre ++ lit "<body" ++ battrs ++ lit ">" ++ a)
              ++ lit "<style" ++ sattrs ++ lit ">" ++ css ++ lit "</style>"
              ++ (b ++ lit "</body>" ++ post)).
    + now apply styleContent_found.
    + unfold text, inner, style_region. now rewrite <- !app_assoc.
Qed.

Lemma style_inside_body_is_emitted_twice_witness :
  bodyContent (lit Sample.style_in_body)
  = JString (lit "<h1>T</h1><style>h1{}</style><p>x</p>")
  /\ styleContent (lit Sample.style_in_body) = JString (lit "h1{}").
Proof.
  apply (style_inside_body_is_emitted_twice (lit "<html>") (lit " id=m")
           (lit "<h1>T</h1>") [] (lit "h1{}") (lit "<p>x</p>") (lit "</html>"));
    reflexivity.
Defined.

(* ================================================================== *)
(** ** Further properties of the render operation *)

Section RenderMore.
Variable path_join : str -> str -> str.
Variable utf8_decode : list Byte.byte -> str.

(** X9. Whenever [index.html] in the working directory can be read (the
    directory still exists and the path names a regular file), whatever it
    holds, the render
    returns: a fragment of exactly a style element and a div element, in
    that order, each with a string as its markup, and each string a piece
    of the decoded text. *)
Theorem readable_file_always_renders (w : world) (content : list Byte.byte) :
  cwd_removed w = false ->
  disk w (htmlPath path_join w) = RegularFile content ->
  exists s b,
    result (Page path_join utf8_decode w)
    = Returned (Fragment [Element "style" (JString s);
                          Element "div" (JString b)])
    /\ (exists l r, utf8_decode content = l ++ s ++ r)
    /\ (exists l r, utf8_decode content = l ++ b ++ r).
Proof.
  intros Hd Hf. rewrite Page_run. cbv zeta. rewrite Hd, Hf.
  unfold result, rendered; cbn [fst].
  rewrite bodyContent_fragment, styleContent_fragment.
  destruct (fragment_piece 60%N (lit "/style>") (lit "<style")
              (utf8_decode content)) as (s & l1 & r1 & Es & Hs & _).
  destruct (fragment_piece 60%N (lit "/body>") (lit "<body")
              (utf8_decode content)) as (b & l2 & r2 & Eb & Hb & _).
  exists s, b.
  change (60%N :: lit "/style>") with (lit "</style>") in Es.
  change (60%N :: lit "/body>") with (lit "</body>") in Eb.
  rewrite Es, Eb. split; [reflexivity|]. split; eauto.
Qed.

(** X10. The outcome and the file-system calls of a render depend on the
    world only through the working directory (its path and whether it still
    exists) and what [index.html] there names: no other file has any
    influence. *)
Theorem render_ignores_other_files (w1 w2 : world) :
  cwd w1 = cwd w2 ->
  cwd_removed w1 = cwd_removed w2 ->
  disk w1 (htmlPath path_join w1) = disk w2 (htmlPath path_join w1) ->
  result (Page path_join utf8_decode w1)
  = result (Page path_join utf8_decode w2)
  /\ calls (Page path_join utf8_decode w1)
     = calls (Page path_join utf8_decode w2).
Proof.
  intros Hc Hr Hd.
  assert (Hp : htmlPath path_join w2 = htmlPath path_join w1)
    by (unfold htmlPath; now rewrite Hc).
  rewrite !Page_run. cbv zeta. rewrite Hp, <- Hd, <- Hr.
  destruct (cwd_removed w1); [split; reflexivity|].
  now destruct (disk w1 (htmlPath path_join w1)).
Qed.

(** X11. For a document with a style region in front of its body region,
    the render returns the inner contents of the style region in the style
    element and the inner contents of the body region in the div element. *)
Theorem document_renders_style_and_body
        (w : world) (content : list Byte.byte)
        (pre sattrs css mid battrs inner post : str) :
  let head :=
    pre ++ lit "<style" ++ sattrs ++ lit ">" ++ css ++ lit "</style>" ++ mid in
  cwd_removed w = false ->
  disk w (htmlPath path_join w) = RegularFile content ->
  utf8_decode content
  = head ++ lit "<body" ++ battrs ++ lit ">" ++ inner ++ lit "</body>"
         ++ post ->
  opens_in (lit "<style") pre = false ->
  has_sub (lit ">") sattrs = false ->
  has_sub (lit "</style>") css = false ->
  opens_in (lit "<body") head = false ->
  has_sub (lit ">") battrs = false ->
  has_sub (lit "</body>") inner = false ->
  result (Page path_join utf8_decode w)
  = Returned (Fragment [Element "style" (JString css);
                        Element "div" (JString inner)]).
Proof.
  intros head Hd Hf Ht Hps Hs Hc Hpb Hb Hi.
  rewrite Page_run. cbv zeta. rewrite Hd, Hf.
  unfold result, rendered; cbn [fst].
  rewrite Ht.
  rewrite (bodyContent_found head battrs inner post Hpb Hb Hi).
  replace (head ++ lit "<body" ++ battrs ++ lit ">" ++ inner
             ++ lit "</body>" ++ post)
    with (pre ++ lit "<style" ++ sattrs ++ lit ">" ++ css ++ lit "</style>"
              ++ (mid ++ lit "<body" ++ battrs ++ lit ">" ++ inner
                      ++ lit "</body>" ++ post))
    by (unfold head; now rewrite <- !app_assoc).
  now rewrite (styleContent_found pre sattrs css _ Hps Hs Hc).
Qed.
End RenderMore.

Lemma readable_file_always_renders_witness :
  exists s b,
    result (Page Sample.join Sample.decode
              (Sample.app_with "<body><<>></style>"))
    = Returned (Fragment [Element "style" (JString s);
                          Element "div" (JString b)])
    /\ (exists l r,
          Sample.decode (list_byte_of_string "<body><<>></style>")
          = l ++ s ++ r)
    /\ (exists l r,
          Sample.decode (list_byte_of_string "<body><<>></style>")
          = l ++ b ++ r).
Proof.
  apply (readable_file_always_renders Sample.join Sample.decode
           (Sample.app_with "<body><<>></style>")
           (list_byte_of_string "<body><<>></style>"));
    reflexivity.
Defined.

Lemma render_ignores_other_files_witness :
  result (Page Sample.join Sample.decode (Sample.app_with "<body>Hi</body>"))
  = result (Page Sample.join Sample.decode
              (Sample.app_with_other "<body>Hi</body>" "<body>No</body>"))
  /\ calls (Page Sample.join Sample.decode (Sample.app_with "<body>Hi</body>"))
     = calls (Page Sample.join Sample.decode
                (Sample.app_with_other "<body>Hi</body>" "<body>No</body>")).
Proof.
  apply (render_ignores_other_files Sample.join Sample.decode
           (Sample.app_with "<body>Hi</body>")
           (Sample.app_with_other "<body>Hi</body>" "<body>No</body>"));
    reflexivity.
Defined.

Lemma document_renders_style_and_body_witness :
  result
    (Page Sample.join Sample.decode
       (Sample.app_with Sample.styled_page))
  = Returned (Fragment [Element "style" (JString (lit "p{margin:0}"));
                        Element "div" (JString (lit "<p>Hi</p>"))]).
Proof.
  apply (document_renders_style_and_body Sample.join Sample.decode
           (Sample.app_with Sample.styled_page)
           (list_byte_of_string Sample.styled_page)
           (lit "<html><head>") [] (lit "p{margin:0}") (lit "</head>")
           (lit " class=x") (lit "<p>Hi</p>") (lit "</html>"));
    reflexivity.
Defined.
